(** * Stepper-motor controller (A4988 driver, MicroPython)

    Shallow embedding of the two variants of class [StepperMotor] found in
    [src/StepperMotor.py] and [src/BlinkLed.py].

    The MicroPython runtime is modelled as follows.
    - A Python computation is a function from a state to an [outcome]:
      a normal return, a raised exception (catchable by the caller, carrying
      the state reached when it was raised), or [sys.exit] (process
      termination, carrying the exit code).
    - The hardware and the console are an event trace, most recent event
      first: pin configuration ([Pin(n, mode, pull)]), pin writes
      ([.value(v)]), PWM set-up and [print] calls.
    - The attributes of the object are a record; an attribute that the
      object may not have ([position], [speed]) is an [option], [None]
      meaning "attribute not set" (reading it raises [AttributeError]);
      an attribute holding Python's [None] ([currentSpeed],
      [currentPosition]) is also an [option].
    - Python numbers reaching [/] are rationals [Q]; integer-only
      quantities (pins, steps, dividers) are [Z]. *)

From Stdlib Require Import ZArith QArith List String Bool Lia.
Import ListNotations.
Open Scope Z_scope.

(** ** Python runtime: outcomes and the state/exception/exit monad *)

Inductive exn : Type :=
| AttributeError (attr : string).

Inductive outcome (S A : Type) : Type :=
| Ret (s : S) (a : A)
| Raise (e : exn) (s : S)
| Exit (code : Z) (s : S).

Arguments Ret {S A} s a.
Arguments Raise {S A} e s.
Arguments Exit {S A} code s.

Definition M (S A : Type) : Type := S -> outcome S A.

Section Monad.
Context {S : Type}.

Definition ret {A} (a : A) : M S A := fun s => Ret s a.

Definition bind {A B} (c : M S A) (k : A -> M S B) : M S B :=
  fun s =>
    match c s with
    | Ret s' a => k a s'
    | Raise e s' => Raise e s'
    | Exit n s' => Exit n s'
    end.

Definition get : M S S := fun s => Ret s s.
Definition put (s : S) : M S unit := fun _ => Ret s tt.
Definition raise {A} (e : exn) : M S A := fun s => Raise e s.

(** [sys.exit(code)]: the process terminates. *)
Definition sys_exit {A} (code : Z) : M S A := fun s => Exit code s.
End Monad.

Notation "x <- c ;; k" := (bind c (fun x => k))
  (at level 61, c at next level, right associativity).
Notation "c ;; k" := (bind c (fun _ => k))
  (at level 61, right associativity).

(** ** Hardware and console *)

Inductive PinMode : Type := OUT | IN.
Inductive PinPull : Type := PULL_UP.

(** Messages printed by the class (their text abstracted to their data). *)
Inductive message : Type :=
| MsgPinsNotDeclared
| MsgMotorEnabled
| MsgMotorDisabled
| MsgDirectionReversed
| MsgInvalidMicrostep (stepDivider : Z)
| MsgMicrostepSet (stepDivider : Z)
| MsgMoved (steps position : Z)
| MsgSpeedExceeds (rpm : Q) (max_rpm : Z)
| MsgSpeedSet (rpm speed : Q)
| MsgNoHomingPin
| MsgHoming (pin : Z)
| MsgHomed.

Inductive event : Type :=
| PinInit (pin : Z) (mode : PinMode) (pull : option PinPull)
      (** [Pin(pin, mode[, pull])] *)
| PinWrite (pin : Z) (v : Z)
      (** [.value(v)] on a pin object *)
| PwmInit (pin : Z)
      (** [PWM(Pin(pin))] *)
| PwmDuty (pin : Z) (duty : Z)
      (** [pwm.duty(duty)] (10-bit duty) *)
| PwmDutyU16 (pin : Z) (duty : Z)
      (** [PWM(..., duty_u16 = duty)] *)
| PwmFreq (pin : Z) (freq : Q)
      (** [pwm.freq(freq)] *)
| Print (msg : message).

Definition trace := list event.

(** The logic level a pin was last driven to ([.value(v)] drives the pin
    to [1] when [v] is truthy, to [0] otherwise); [None]: never written. *)
Fixpoint pin_level (t : trace) (n : Z) : option Z :=
  match t with
  | [] => None
  | PinWrite p v :: t' =>
      if Z.eqb p n then Some (if Z.eqb v 0 then 0 else 1) else pin_level t' n
  | _ :: t' => pin_level t' n
  end.

(** The last configuration of a pin by [Pin(n, mode[, pull])]. *)
Fixpoint pin_config (t : trace) (n : Z) : option (PinMode * option PinPull) :=
  match t with
  | [] => None
  | PinInit p md pl :: t' =>
      if Z.eqb p n then Some (md, pl) else pin_config t' n
  | _ :: t' => pin_config t' n
  end.

(** Whether an event concerns a pin (configuration, write or PWM). *)
Definition touches_pin (e : event) : bool :=
  match e with
  | Print _ => false
  | _ => true
  end.

(** ** The object's attributes *)

Record motor : Type := mkMotor {
  currentPosition : option Z;
  currentSpeed : option Q;
  position : option Z;
  speed : option Q;
  stepPin : Z;
  dirPin : Z;
  disablePin : Z;
  homingPin : option Z;
  stepDivider : Z;
  MAX_RPM : Z;
  direction : Z
}.

Definition set_position (p : option Z) (m : motor) : motor :=
  mkMotor (currentPosition m) (currentSpeed m) p (speed m) (stepPin m)
    (dirPin m) (disablePin m) (homingPin m) (stepDivider m) (MAX_RPM m)
    (direction m).

Definition set_speed (v : option Q) (m : motor) : motor :=
  mkMotor (currentPosition m) (currentSpeed m) (position m) v (stepPin m)
    (dirPin m) (disablePin m) (homingPin m) (stepDivider m) (MAX_RPM m)
    (direction m).

Definition set_currentSpeed (v : option Q) (m : motor) : motor :=
  mkMotor (currentPosition m) v (position m) (speed m) (stepPin m)
    (dirPin m) (disablePin m) (homingPin m) (stepDivider m) (MAX_RPM m)
    (direction m).

Definition set_stepDivider (d : Z) (m : motor) : motor :=
  mkMotor (currentPosition m) (currentSpeed m) (position m) (speed m)
    (stepPin m) (dirPin m) (disablePin m) (homingPin m) d (MAX_RPM m)
    (direction m).

Definition set_direction (d : Z) (m : motor) : motor :=
  mkMotor (currentPosition m) (currentSpeed m) (position m) (speed m)
    (stepPin m) (dirPin m) (disablePin m) (homingPin m) (stepDivider m)
    (MAX_RPM m) d.

(** State of a method call: the object and the event trace. *)
Record sys : Type := mkSys { obj : motor; io : trace }.

(** The spec's [enabled] flag: the code keeps no such attribute; the
    driver is enabled exactly when the disable pin was last driven low. *)
Definition enabled (s : sys) : bool :=
  match pin_level (io s) (disablePin (obj s)) with
  | Some 0 => true
  | _ => false
  end.

(** ** Primitive operations *)

(** Constructor-time emission, on the bare trace. *)
Definition emitT (e : event) : M trace unit := fun t => Ret (e :: t) tt.

Definition emit (e : event) : M sys unit :=
  fun s => Ret (mkSys (obj s) (e :: io s)) tt.

Definition print (msg : message) : M sys unit := emit (Print msg).

Definition self : M sys motor := fun s => Ret s (obj s).

Definition update (f : motor -> motor) : M sys unit :=
  fun s => Ret (mkSys (f (obj s)) (io s)) tt.

(** [Pin(n, Pin.OUT).value(v)] *)
Definition pin_out_value (n v : Z) : M sys unit :=
  emit (PinInit n OUT None) ;; emit (PinWrite n v).

(** [p.value(v)] on a stored pin object [p] for pin [n] *)
Definition pin_value (n v : Z) : M sys unit := emit (PinWrite n v).

(** Reading [self.position]. *)
Definition get_position : M sys Z :=
  fun s =>
    match position (obj s) with
    | Some p => Ret s p
    | None => Raise (AttributeError "position") s
    end.

(** Python's [<] on numbers. *)
Definition Qltb (x y : Q) : bool := negb (Qle_bool y x).

(** Python's [int(x)] on a number: truncation toward zero. *)
Definition py_int (x : Q) : Z := Z.quot (Qnum x) (Zpos (Qden x)).

(** [VALID_MICROSTEPS = {1, 2, 4, 8, 16}] *)
Definition VALID_MICROSTEPS : list Z := [1; 2; 4; 8; 16].

Definition valid_microstep (d : Z) : bool := existsb (Z.eqb d) VALID_MICROSTEPS.

(** ** Methods written identically in both files *)

Module Common.

(** [disableMotor]: [Pin(self.disablePin, Pin.OUT).value(1)]. *)
Definition disableMotor : M sys unit :=
  m <- self ;;
  pin_out_value (disablePin m) 1 ;;
  print MsgMotorDisabled.

(** [reverseDirections]: [self.direction = -self.direction]. *)
Definition reverseDirections : M sys unit :=
  m <- self ;;
  update (set_direction (- direction m)) ;;
  print MsgDirectionReversed.

(** [setMicroStep]: exits the process on a divider outside
    [VALID_MICROSTEPS]. *)
Definition setMicroStep (d : Z) : M sys unit :=
  if negb (valid_microstep d) then
    print (MsgInvalidMicrostep d) ;;
    sys_exit 1
  else
    update (set_stepDivider d) ;;
    print (MsgMicrostepSet d).

Section Homing.
(** The object's own [setSpeed] method ([self.setSpeed]). *)
Variable setSpeed : Q -> M sys unit.

(** [homeMotorReverse(speed = -60)] *)
Definition homeMotorReverse (spd : Q) : M sys unit :=
  m <- self ;;
  match homingPin m with
  | None => print MsgNoHomingPin
  | Some h =>
      print (MsgHoming h) ;;
      setSpeed spd ;;
      update (set_position (Some 0)) ;;
      print MsgHomed
  end.
End Homing.

(** [homeMotorForward(speed = 60)]: the argument is not used. *)
Definition homeMotorForward (spd : Q) : M sys unit :=
  m <- self ;;
  match homingPin m with
  | None => print MsgNoHomingPin
  | Some h =>
      print (MsgHoming h) ;;
      update (set_position (Some 0)) ;;
      print MsgHomed
  end.

(** [for _ in range(n): Pin(pin, Pin.OUT).value(1); Pin(pin, Pin.OUT).value(0)] *)
Fixpoint pulses_out (n : nat) (pin : Z) : M sys unit :=
  match n with
  | O => ret tt
  | S n' => pin_out_value pin 1 ;; pin_out_value pin 0 ;; pulses_out n' pin
  end.

(** [for _ in range(n): self.stepPin.value(1); self.stepPin.value(0)] *)
Fixpoint pulses_obj (n : nat) (pin : Z) : M sys unit :=
  match n with
  | O => ret tt
  | S n' => pin_value pin 1 ;; pin_value pin 0 ;; pulses_obj n' pin
  end.

End Common.

(** ** [src/StepperMotor.py] *)

Module StepperMotorPy.

(** [__init__(self, homingPin=None, stepPin=None, dirPin=None,
    disablePin=None)] *)
Definition init (homingPin stepPin dirPin disablePin : option Z)
  : M trace motor :=
  match stepPin, dirPin, disablePin with
  | Some sp, Some dp, Some ip =>
      let self :=
        {| currentPosition := None; currentSpeed := None;
           position := None; speed := None;
           stepPin := sp; dirPin := dp; disablePin := ip;
           homingPin := homingPin; stepDivider := 1; MAX_RPM := 600;
           direction := 1 |} in
      emitT (PinInit sp OUT None) ;; emitT (PinWrite sp 0) ;;
      emitT (PinInit dp OUT None) ;; emitT (PinWrite dp 0) ;;
      emitT (PinInit ip OUT None) ;; emitT (PinWrite ip 1) ;;
      (match homingPin with
       | Some h => emitT (PinInit h IN (Some PULL_UP))
       | None => ret tt
       end) ;;
      ret self
  | _, _, _ =>
      emitT (Print MsgPinsNotDeclared) ;; sys_exit 1
  end.

(** [enableMotor]: [Pin(self.disablePin, Pin.OUT).value(0)]. *)
Definition enableMotor : M sys unit :=
  m <- self ;;
  pin_out_value (disablePin m) 0 ;;
  print MsgMotorEnabled.

Definition disableMotor := Common.disableMotor.
Definition reverseDirections := Common.reverseDirections.
Definition setMicroStep := Common.setMicroStep.

(** [moveSteps]: emits the pulses, then prints [self.position]. *)
Definition moveSteps (steps : Z) : M sys unit :=
  m <- self ;;
  Common.pulses_out (Z.to_nat (Z.abs steps)) (stepPin m) ;;
  p <- get_position ;;
  print (MsgMoved steps p).

(** [setSpeed(rpm)] *)
Definition setSpeed (rpm : Q) : M sys unit :=
  m <- self ;;
  let steps_per_revolution := 200 * stepDivider m in
  let spd := (rpm * inject_Z steps_per_revolution / 60)%Q in
  update (set_speed (Some spd)) ;;
  if Qltb (inject_Z (MAX_RPM m * steps_per_revolution) / 60) spd then
    print (MsgSpeedExceeds rpm (MAX_RPM m)) ;;
    sys_exit 1
  else
    emit (PwmInit (stepPin m)) ;;
    emit (PwmDuty (stepPin m) 512) ;;
    emit (PwmFreq (stepPin m) spd) ;;
    (if Qltb (rpm * inject_Z (direction m)) 0
     then pin_out_value (dirPin m) 1
     else pin_out_value (dirPin m) 0) ;;
    update (set_currentSpeed (Some rpm)) ;;
    print (MsgSpeedSet rpm spd).

Definition homeMotorReverse := Common.homeMotorReverse setSpeed.
Definition homeMotorForward := Common.homeMotorForward.

End StepperMotorPy.

(** ** [src/BlinkLed.py] *)

Module BlinkLed.

(** [__init__(self, stepPin=None, dirPin=None, disablePin=None,
    homingPin=None, counterPin=None)]; the pin attributes hold [Pin]
    objects, identified here with their pin numbers; [counterPin] is not
    used. *)
Definition init (stepPin dirPin disablePin homingPin counterPin : option Z)
  : M trace motor :=
  match stepPin, dirPin, disablePin with
  | Some sp, Some dp, Some ip =>
      let self :=
        {| currentPosition := None; currentSpeed := None;
           position := None; speed := None;
           stepPin := sp; dirPin := dp; disablePin := ip;
           homingPin := homingPin; stepDivider := 1; MAX_RPM := 600;
           direction := 1 |} in
      emitT (PinInit sp OUT None) ;; emitT (PinWrite sp 0) ;;
      emitT (PinInit dp OUT None) ;; emitT (PinWrite dp 1) ;;
      emitT (PinInit ip OUT None) ;; emitT (PinWrite ip 1) ;;
      (match homingPin with
       | Some h => emitT (PinInit h IN (Some PULL_UP))
       | None => ret tt
       end) ;;
      ret self
  | _, _, _ =>
      emitT (Print MsgPinsNotDeclared) ;; sys_exit 1
  end.

(** [enableMotor]: [self.disablePin.value(0)]. *)
Definition enableMotor : M sys unit :=
  m <- self ;;
  pin_value (disablePin m) 0 ;;
  print MsgMotorEnabled.

Definition disableMotor := Common.disableMotor.
Definition reverseDirections := Common.reverseDirections.
Definition setMicroStep := Common.setMicroStep.

(** [step(steps)] *)
Definition step (steps : Z) : M sys unit :=
  m <- self ;;
  (if Z.gtb steps 0 then
     pin_out_value (dirPin m) (direction m) ;;
     Common.pulses_out (Z.to_nat (Z.abs steps)) (stepPin m)
   else ret tt) ;;
  (if Z.ltb steps 0 then
     pin_out_value (dirPin m) (- direction m) ;;
     Common.pulses_obj (Z.to_nat (Z.abs steps)) (stepPin m)
   else ret tt) ;;
  p <- get_position ;;
  update (set_position (Some (p + steps * direction m))) ;;
  p' <- get_position ;;
  print (MsgMoved steps p').

(** [setSpeed(rpm)] *)
Definition setSpeed (rpm : Q) : M sys unit :=
  m <- self ;;
  let steps_per_revolution := 200 * stepDivider m in
  let spd := (rpm * inject_Z steps_per_revolution / 60)%Q in
  update (set_speed (Some spd)) ;;
  if Qltb (inject_Z (MAX_RPM m * steps_per_revolution) / 60) spd then
    print (MsgSpeedExceeds rpm (MAX_RPM m)) ;;
    sys_exit 1
  else
    emit (PwmInit (stepPin m)) ;;
    emit (PwmDutyU16 (stepPin m) 32768) ;;
    emit (PwmFreq (stepPin m) (inject_Z (py_int spd))) ;;
    (if Qltb (rpm * inject_Z (direction m)) 0
     then pin_value (dirPin m) 1
     else pin_value (dirPin m) 0) ;;
    update (set_currentSpeed (Some rpm)) ;;
    print (MsgSpeedSet rpm spd).

Definition homeMotorReverse := Common.homeMotorReverse setSpeed.
Definition homeMotorForward := Common.homeMotorForward.

End BlinkLed.

(** ** Observations and concrete configurations *)

(** Kind of an outcome (normal return, exception, exit) and the object it
    leaves. *)
Definition final_obj {A} (o : outcome sys A) : nat * motor :=
  match o with
  | Ret s _ => (0%nat, obj s)
  | Raise _ s => (1%nat, obj s)
  | Exit _ s => (2%nat, obj s)
  end.

(** The events of [n] pulses written through [Pin(pin, Pin.OUT)], most
    recent first. *)
Fixpoint out_pulse_trace (n : nat) (pin : Z) : trace :=
  match n with
  | O => []
  | S n' => out_pulse_trace n' pin ++
              [PinWrite pin 0; PinInit pin OUT None; PinWrite pin 1; PinInit pin OUT None]
  end.

(** The events of [n] pulses written through a stored pin object. *)
Fixpoint obj_pulse_trace (n : nat) (pin : Z) : trace :=
  match n with
  | O => []
  | S n' => obj_pulse_trace n' pin ++ [PinWrite pin 0; PinWrite pin 1]
  end.

(** A freshly constructed object together with the trace it left. *)
Definition started (o : outcome trace motor) : option sys :=
  match o with
  | Ret t m => Some (mkSys m t)
  | _ => None
  end.

(** [StepperMotor(stepPin = 17, dirPin = 16, disablePin = 7)] *)
Definition sm_no_homing : sys :=
  match started (StepperMotorPy.init None (Some 17) (Some 16) (Some 7) []) with
  | Some s => s
  | None => mkSys (mkMotor None None None None 0 0 0 None 1 600 1) []
  end.

(** [StepperMotor(stepPin = 17, dirPin = 16, disablePin = 7, homingPin = 4)] *)
Definition sm_homing : sys :=
  match started (StepperMotorPy.init (Some 4) (Some 17) (Some 16) (Some 7) []) with
  | Some s => s
  | None => mkSys (mkMotor None None None None 0 0 0 None 1 600 1) []
  end.

Definition bl_homing : sys :=
  match started (BlinkLed.init (Some 17) (Some 16) (Some 7) (Some 4) None []) with
  | Some s => s
  | None => mkSys (mkMotor None None None None 0 0 0 None 1 600 1) []
  end.

Example scenario_speed_300 :
  match (StepperMotorPy.enableMotor ;; StepperMotorPy.setMicroStep 8 ;;
         StepperMotorPy.setSpeed 300) sm_homing with
  | Ret s _ => Qeq_bool (match speed (obj s) with Some v => v | None => 0 end) 8000
  | _ => false
  end = true.
Proof. vm_compute. reflexivity. Qed.

Example scenario_speed_700 :
  match StepperMotorPy.setSpeed 700 sm_homing with Exit 1 _ => true | _ => false end = true.
Proof. vm_compute. reflexivity. Qed.

(** ** Evaluation lemmas *)

Lemma bind_eq {S A B} (c : M S A) (k : A -> M S B) (s : S) :
  bind c k s = match c s with
               | Ret s' a => k a s'
               | Raise e s' => Raise e s'
               | Exit n s' => Exit n s'
               end.
Proof. reflexivity. Qed.

Lemma pulses_out_eq (n : nat) (pin : Z) (s : sys) :
  Common.pulses_out n pin s = Ret (mkSys (obj s) (out_pulse_trace n pin ++ io s)) tt.
Proof.
  revert s; induction n as [|n IH]; intros [m t]; [reflexivity|].
  cbn [Common.pulses_out]. rewrite !bind_eq. cbn. rewrite IH. cbn.
  rewrite <- app_assoc. reflexivity.
Qed.

Lemma pulses_obj_eq (n : nat) (pin : Z) (s : sys) :
  Common.pulses_obj n pin s = Ret (mkSys (obj s) (obj_pulse_trace n pin ++ io s)) tt.
Proof.
  revert s; induction n as [|n IH]; intros [m t]; [reflexivity|].
  cbn [Common.pulses_obj]. rewrite !bind_eq. cbn. rewrite IH. cbn.
  rewrite <- app_assoc. reflexivity.
Qed.

(** Symbolic execution of a method body. *)
Ltac run_py :=
  repeat first
    [ progress rewrite ?pulses_out_eq, ?pulses_obj_eq
    | progress cbn -[Common.pulses_out Common.pulses_obj]
    | progress rewrite ?bind_eq ].

(** Above [MAX_RPM = 600], the derived frequency exceeds the derived
    maximum, for any positive divider. *)
Lemma over_limit (d : Z) (rpm : Q) :
  0 < d -> (600 < rpm)%Q ->
  Qltb (inject_Z (600 * (200 * d)) / 60) (rpm * inject_Z (200 * d) / 60) = true.
Proof.
  intros Hd Hr. unfold Qltb. apply negb_true_iff.
  destruct (Qle_bool _ _) eqn:E; [|reflexivity].
  apply Qle_bool_iff in E. exfalso.
  destruct rpm as [a b]. unfold Qlt, Qle in *.
  unfold Qdiv, Qmult, Qinv, inject_Z in *. cbn [Qnum Qden] in *.
  rewrite ?Pos2Z.inj_mul in *. nia.
Qed.

(** ** Claims *)

(** C1 (as amended).  For [rpm > 600] (and the invariant facts that the
    divider is positive and [MAX_RPM = 600]), [setSpeed] in both files
    prints an error and terminates the process with [sys.exit(1)]: no
    recoverable result reaches the caller.  The only attribute it has
    written by then is [speed] (the derived frequency); [currentSpeed],
    the divider, the direction and every pin are untouched. *)
Theorem setSpeed_over_limit_exits (s : sys) (rpm : Q)
  (Hdiv : 0 < stepDivider (obj s)) (Hmax : MAX_RPM (obj s) = 600)
  (Hrpm : (600 < rpm)%Q) :
  let exited :=
    mkSys (set_speed (Some (rpm * inject_Z (200 * stepDivider (obj s)) / 60)%Q) (obj s))
          (Print (MsgSpeedExceeds rpm 600) :: io s) in
  StepperMotorPy.setSpeed rpm s = Exit 1 exited /\
  BlinkLed.setSpeed rpm s = Exit 1 exited.
Proof.
  destruct s as [m t]; cbn [obj io] in *.
  unfold StepperMotorPy.setSpeed, BlinkLed.setSpeed.
  rewrite !bind_eq. cbn [self update obj io].
  rewrite !bind_eq. cbn [update obj io].
  rewrite Hmax, (over_limit _ _ Hdiv Hrpm).
  split; reflexivity.
Qed.

Lemma setSpeed_over_limit_exits_witness :
  exists st, StepperMotorPy.setSpeed 700 sm_homing = Exit 1 st /\
             BlinkLed.setSpeed 700 sm_homing = Exit 1 st.
Proof.
  pose proof (setSpeed_over_limit_exits sm_homing 700
                ltac:(vm_compute; reflexivity) ltac:(vm_compute; reflexivity)
                ltac:(vm_compute; reflexivity)) as H.
  cbv zeta in H. exact (ex_intro _ _ H).
Defined.

(** C1 fails as stated: [setSpeed(700)] on a freshly built controller does
    not return an error to the caller; it ends the process with
    [sys.exit(1)]. *)
Lemma setSpeed_700_terminates_process :
  exists st, StepperMotorPy.setSpeed 700 sm_no_homing = Exit 1 st.
Proof. eexists. vm_compute. reflexivity. Qed.

Lemma valid_microstep_spec (d : Z) :
  valid_microstep d = true <-> (d = 1 \/ d = 2 \/ d = 4 \/ d = 8 \/ d = 16).
Proof.
  unfold valid_microstep, VALID_MICROSTEPS. cbn [existsb].
  rewrite !orb_true_iff, !Z.eqb_eq. intuition discriminate.
Qed.

(** C2 (as amended).  For a divider in [{1,2,4,8,16}], [setMicroStep]
    returns normally with [stepDivider] set to it and nothing else changed
    but the console; for any other integer it prints an error and
    terminates the process with [sys.exit(1)] before any attribute is
    written: no recoverable error reaches the caller. *)
Theorem setMicroStep_valid_or_exit (s : sys) (d : Z) :
  ((d = 1 \/ d = 2 \/ d = 4 \/ d = 8 \/ d = 16) ->
     StepperMotorPy.setMicroStep d s =
       Ret (mkSys (set_stepDivider d (obj s)) (Print (MsgMicrostepSet d) :: io s)) tt /\
     BlinkLed.setMicroStep d s =
       Ret (mkSys (set_stepDivider d (obj s)) (Print (MsgMicrostepSet d) :: io s)) tt /\
     stepDivider (set_stepDivider d (obj s)) = d) /\
  (~ (d = 1 \/ d = 2 \/ d = 4 \/ d = 8 \/ d = 16) ->
     StepperMotorPy.setMicroStep d s =
       Exit 1 (mkSys (obj s) (Print (MsgInvalidMicrostep d) :: io s)) /\
     BlinkLed.setMicroStep d s =
       Exit 1 (mkSys (obj s) (Print (MsgInvalidMicrostep d) :: io s))).
Proof.
  unfold StepperMotorPy.setMicroStep, BlinkLed.setMicroStep, Common.setMicroStep.
  destruct s as [m t]. split; intros H.
  - apply valid_microstep_spec in H. rewrite H. repeat split.
  - destruct (valid_microstep d) eqn:E.
    + exfalso. apply H, valid_microstep_spec, E.
    + split; reflexivity.
Qed.

(** C2 fails as stated: [setMicroStep(3)] terminates the process. *)
Lemma setMicroStep_3_terminates_process :
  exists st, StepperMotorPy.setMicroStep 3 sm_homing = Exit 1 st.
Proof. eexists. vm_compute. reflexivity. Qed.

(** C3 (code defect).  A successful construction sets [currentPosition]
    to [None] and never creates [position]; every later [moveSteps],
    the first one included, emits its pulses and then raises
    [AttributeError] when it reads [self.position]. *)
Theorem init_leaves_position_unset (hp sp dp ip : option Z) (t t' : trace)
  (m : motor) (Hinit : StepperMotorPy.init hp sp dp ip t = Ret t' m) :
  position m = None /\ currentPosition m = None /\
  forall steps,
    StepperMotorPy.moveSteps steps (mkSys m t') =
      Raise (AttributeError "position")
        (mkSys m (out_pulse_trace (Z.to_nat (Z.abs steps)) (stepPin m) ++ t')).
Proof.
  destruct sp as [sp|], dp as [dp|], ip as [ip|]; try discriminate Hinit.
  destruct hp as [hp|]; cbn in Hinit; injection Hinit as <- <-;
    (split; [reflexivity | split; [reflexivity |]]);
    intros steps; unfold StepperMotorPy.moveSteps;
    rewrite !bind_eq; cbn [self obj]; rewrite bind_eq, pulses_out_eq; reflexivity.
Qed.

Lemma init_leaves_position_unset_witness :
  match StepperMotorPy.init None (Some 17) (Some 16) (Some 7) [] with
  | Ret t' m =>
      position m = None /\
      exists st, StepperMotorPy.moveSteps 5 (mkSys m t') =
                   Raise (AttributeError "position") st
  | _ => False
  end.
Proof.
  destruct (StepperMotorPy.init None (Some 17) (Some 16) (Some 7) []) as [t' m| |] eqn:E.
  - destruct (init_leaves_position_unset _ _ _ _ _ _ _ E) as [H1 [_ H3]].
    split; [exact H1 | eexists; apply H3].
  - vm_compute in E. discriminate E.
  - vm_compute in E. discriminate E.
Defined.

(** The same defect in [src/BlinkLed.py]: [step] raises on the unset
    [position] after emitting its pulses. *)
Lemma BlinkLed_step_unset_position (s : sys) (Hpos : position (obj s) = None) :
  exists st, BlinkLed.step 5 s = Raise (AttributeError "position") st.
Proof.
  destruct s as [[] t]; cbn in Hpos; subst.
  unfold BlinkLed.step. run_py. eexists; reflexivity.
Qed.

(** A controller homed by [homeMotorForward] ([position = 0]). *)
Definition sm_homed : sys :=
  match StepperMotorPy.homeMotorForward 60 sm_homing with
  | Ret s _ => s
  | _ => sm_homing
  end.

(** C4 (code defect).  In [src/StepperMotor.py], [moveSteps] never writes
    [position]: once [position] is set, every call returns with
    [position] unchanged, whatever [steps] and [direction] are. *)
Theorem moveSteps_keeps_position (s : sys) (steps p : Z)
  (Hpos : position (obj s) = Some p) :
  StepperMotorPy.moveSteps steps s =
    Ret (mkSys (obj s)
           (Print (MsgMoved steps p)
              :: out_pulse_trace (Z.to_nat (Z.abs steps)) (stepPin (obj s)) ++ io s)) tt.
Proof.
  destruct s as [[] t]; cbn in Hpos |- *; subst.
  unfold StepperMotorPy.moveSteps. run_py. reflexivity.
Qed.

Lemma moveSteps_keeps_position_witness :
  exists st, StepperMotorPy.moveSteps 5 sm_homed = Ret st tt /\
             position (obj st) = Some 0.
Proof.
  eexists. split.
  - apply (moveSteps_keeps_position sm_homed 5 0). vm_compute. reflexivity.
  - reflexivity.
Defined.

(** The sibling [step] of [src/BlinkLed.py] does the update
    [position += steps * direction]. *)
Lemma BlinkLed_step_updates_position (s : sys) (steps p : Z)
  (Hpos : position (obj s) = Some p) :
  exists t,
    BlinkLed.step steps s =
      Ret (mkSys (set_position (Some (p + steps * direction (obj s))) (obj s)) t) tt.
Proof.
  destruct s as [[] t]; cbn in Hpos |- *; subst.
  unfold BlinkLed.step. cbn.
  destruct (Z.gtb steps 0); destruct (Z.ltb steps 0); run_py;
    eexists; reflexivity.
Qed.

(** C5 (as amended).  The derived frequency is stored, in the attribute
    [speed]: [setSpeed] recomputes it as [rpm * 200 * stepDivider / 60]
    and, on a normal return, also sets [currentSpeed = rpm] without touching
    the divider; [setMicroStep] changes the divider but neither [speed] nor
    [currentSpeed]. *)
Theorem setSpeed_stores_derived_speed (s : sys) (rpm : Q) :
  (forall s', StepperMotorPy.setSpeed rpm s = Ret s' tt ->
     speed (obj s') = Some (rpm * inject_Z (200 * stepDivider (obj s)) / 60)%Q /\
     currentSpeed (obj s') = Some rpm /\
     stepDivider (obj s') = stepDivider (obj s)) /\
  (forall s', BlinkLed.setSpeed rpm s = Ret s' tt ->
     speed (obj s') = Some (rpm * inject_Z (200 * stepDivider (obj s)) / 60)%Q /\
     currentSpeed (obj s') = Some rpm /\
     stepDivider (obj s') = stepDivider (obj s)) /\
  (forall d s', StepperMotorPy.setMicroStep d s = Ret s' tt ->
     speed (obj s') = speed (obj s) /\ currentSpeed (obj s') = currentSpeed (obj s) /\
     stepDivider (obj s') = d).
Proof.
  destruct s as [m t]. split; [|split].
  - intros s' H. unfold StepperMotorPy.setSpeed in H. cbn -[Qltb] in H.
    destruct (Qltb _ _); [discriminate H|]. cbn -[Qltb] in H.
    destruct (Qltb _ _); injection H as <-; repeat split.
  - intros s' H. unfold BlinkLed.setSpeed in H. cbn -[Qltb] in H.
    destruct (Qltb _ _); [discriminate H|]. cbn -[Qltb] in H.
    destruct (Qltb _ _); injection H as <-; repeat split.
  - intros d s' H. unfold StepperMotorPy.setMicroStep, Common.setMicroStep in H.
    destruct (valid_microstep d); cbn in H; [injection H as <- | discriminate H].
    repeat split.
Qed.

(** C5 fails as stated: after [setSpeed(300)] and then [setMicroStep(8)],
    the stored [speed] is [1000] while
    [currentSpeed * 200 * stepDivider / 60 = 8000]. *)
Lemma stored_speed_diverges :
  exists st q,
    (StepperMotorPy.setSpeed 300 ;; StepperMotorPy.setMicroStep 8) sm_homing = Ret st tt /\
    speed (obj st) = Some q /\ currentSpeed (obj st) = Some 300%Q /\
    stepDivider (obj st) = 8 /\
    ~ (q == 300 * inject_Z (200 * stepDivider (obj st)) / 60)%Q.
Proof.
  do 2 eexists. split; [vm_compute; reflexivity|].
  split; [reflexivity|]. split; [reflexivity|]. split; [reflexivity|].
  vm_compute. discriminate.
Qed.

Lemma Zeqb_neq_false (a b : Z) : a <> b -> Z.eqb a b = false.
Proof. apply Z.eqb_neq. Qed.

(** What the claim C6 states holds for [src/StepperMotor.py] (distinct
    pins): step and direction pins outputs at [0], disable pin output at
    [1] (driver disabled), homing pin input with pull-up, direction [1],
    divider [1], [currentSpeed = None]. *)
Lemma StepperMotorPy_init_defaults (hp : option Z) (sp dp ip : Z) (t t' : trace)
  (m : motor) (Hinit : StepperMotorPy.init hp (Some sp) (Some dp) (Some ip) t = Ret t' m)
  (Hnd : NoDup (sp :: dp :: ip :: match hp with Some h => [h] | None => [] end)) :
  pin_config t' sp = Some (OUT, None) /\ pin_level t' sp = Some 0 /\
  pin_config t' dp = Some (OUT, None) /\ pin_level t' dp = Some 0 /\
  pin_config t' ip = Some (OUT, None) /\ pin_level t' ip = Some 1 /\
  (forall h, hp = Some h -> pin_config t' h = Some (IN, Some PULL_UP)) /\
  direction m = 1 /\ stepDivider m = 1 /\ currentSpeed m = None /\
  enabled (mkSys m t') = false.
Proof.
  destruct hp as [h|]; cbn in Hinit; injection Hinit as <- <-;
    apply NoDup_cons_iff in Hnd as [H1 Hnd];
    apply NoDup_cons_iff in Hnd as [H2 Hnd];
    cbn [In] in H1, H2;
    [apply NoDup_cons_iff in Hnd as [H3 _]; cbn [In] in H3|];
    unfold enabled; cbn;
    repeat match goal with
           | |- context [Z.eqb ?a ?a] => rewrite Z.eqb_refl
           | |- context [Z.eqb ?a ?b] => rewrite (Zeqb_neq_false a b) by intuition congruence
           end;
    repeat split;
    try (intros ? Hh; injection Hh as <-; cbn; rewrite Z.eqb_refl; reflexivity);
    intros; discriminate.
Qed.

(** C6 (code defect).  The constructor of [src/BlinkLed.py] drives the
    direction pin to [1], not [0]. *)
Theorem BlinkLed_init_dir_pin_high :
  exists t m,
    BlinkLed.init (Some 17) (Some 16) (Some 7) (Some 4) None [] = Ret t m /\
    dirPin m = 16 /\ pin_config t 16 = Some (OUT, None) /\ pin_level t 16 = Some 1.
Proof. do 2 eexists. split; [vm_compute; reflexivity|]. vm_compute. repeat split. Qed.

(** C7 (as amended).  Without a homing pin, both homing methods of both
    files print an error and return normally (the same [None] a successful
    call returns), leaving every attribute and every pin unchanged: no
    error result reaches the caller. *)
Theorem homing_without_pin_returns (s : sys) (spd : Q)
  (Hnone : homingPin (obj s) = None) :
  let back := mkSys (obj s) (Print MsgNoHomingPin :: io s) in
  StepperMotorPy.homeMotorReverse spd s = Ret back tt /\
  StepperMotorPy.homeMotorForward spd s = Ret back tt /\
  BlinkLed.homeMotorReverse spd s = Ret back tt /\
  BlinkLed.homeMotorForward spd s = Ret back tt.
Proof.
  destruct s as [m t]; cbn in Hnone |- *.
  unfold StepperMotorPy.homeMotorReverse, StepperMotorPy.homeMotorForward,
    BlinkLed.homeMotorReverse, BlinkLed.homeMotorForward,
    Common.homeMotorReverse, Common.homeMotorForward.
  cbn. rewrite Hnone. repeat split.
Qed.

Lemma homing_without_pin_returns_witness :
  exists st, StepperMotorPy.homeMotorReverse (-60) sm_no_homing = Ret st tt /\
             StepperMotorPy.homeMotorForward 60 sm_no_homing = Ret st tt.
Proof.
  pose proof (homing_without_pin_returns sm_no_homing (-60)
                ltac:(vm_compute; reflexivity)) as H.
  pose proof (homing_without_pin_returns sm_no_homing 60
                ltac:(vm_compute; reflexivity)) as H'.
  cbv zeta in H, H'.
  exact (ex_intro _ _ (conj (proj1 H) (proj1 (proj2 H')))).
Defined.

(** C7 fails as stated: [homeMotorReverse()] on a controller built without
    a homing pin returns normally. *)
Lemma homeMotorReverse_no_pin_returns_normally :
  StepperMotorPy.homeMotorReverse (-60) sm_no_homing =
    Ret (mkSys (obj sm_no_homing) (Print MsgNoHomingPin :: io sm_no_homing)) tt.
Proof. vm_compute. reflexivity. Qed.

Section HomingSpec.
Variable setSpeed : Q -> M sys unit.

Lemma homeMotorReverse_with_pin (s : sys) (spd : Q) (h : Z)
  (Hh : homingPin (obj s) = Some h) :
  let s1 := mkSys (obj s) (Print (MsgHoming h) :: io s) in
  (forall s', setSpeed spd s1 = Ret s' tt ->
     Common.homeMotorReverse setSpeed spd s =
       Ret (mkSys (set_position (Some 0) (obj s')) (Print MsgHomed :: io s')) tt) /\
  (forall c s', setSpeed spd s1 = Exit c s' ->
     Common.homeMotorReverse setSpeed spd s = Exit c s') /\
  (forall e s', setSpeed spd s1 = Raise e s' ->
     Common.homeMotorReverse setSpeed spd s = Raise e s').
Proof.
  destruct s as [m t]; cbn in Hh |- *.
  unfold Common.homeMotorReverse. cbn. rewrite Hh. cbn.
  repeat split; intros; rewrite bind_eq; cbn;
    match goal with H : _ = _ |- _ => rewrite H end; reflexivity.
Qed.
End HomingSpec.

Lemma homeMotorForward_with_pin (s : sys) (spd : Q) (h : Z)
  (Hh : homingPin (obj s) = Some h) :
  Common.homeMotorForward spd s =
    Ret (mkSys (set_position (Some 0) (obj s))
           (Print MsgHomed :: Print (MsgHoming h) :: io s)) tt.
Proof.
  destruct s as [m t]; cbn in Hh |- *.
  unfold Common.homeMotorForward. cbn. rewrite Hh. reflexivity.
Qed.

(** C8.  With a homing pin, [homeMotorReverse] calls [self.setSpeed(speed)]
    (after printing), propagates its exit or exception, and after its normal
    return sets [position = 0]; [homeMotorForward] only sets
    [position = 0]: no [setSpeed], no pin or PWM event, only prints. *)
Theorem homing_with_pin (s : sys) (spd : Q) (h : Z)
  (Hh : homingPin (obj s) = Some h) :
  let s1 := mkSys (obj s) (Print (MsgHoming h) :: io s) in
  (forall s', StepperMotorPy.setSpeed spd s1 = Ret s' tt ->
     StepperMotorPy.homeMotorReverse spd s =
       Ret (mkSys (set_position (Some 0) (obj s')) (Print MsgHomed :: io s')) tt) /\
  (forall c s', StepperMotorPy.setSpeed spd s1 = Exit c s' ->
     StepperMotorPy.homeMotorReverse spd s = Exit c s') /\
  (forall s', BlinkLed.setSpeed spd s1 = Ret s' tt ->
     BlinkLed.homeMotorReverse spd s =
       Ret (mkSys (set_position (Some 0) (obj s')) (Print MsgHomed :: io s')) tt) /\
  (forall c s', BlinkLed.setSpeed spd s1 = Exit c s' ->
     BlinkLed.homeMotorReverse spd s = Exit c s') /\
  StepperMotorPy.homeMotorForward spd s =
    Ret (mkSys (set_position (Some 0) (obj s))
           (Print MsgHomed :: Print (MsgHoming h) :: io s)) tt /\
  BlinkLed.homeMotorForward spd s =
    Ret (mkSys (set_position (Some 0) (obj s))
           (Print MsgHomed :: Print (MsgHoming h) :: io s)) tt.
Proof.
  cbv zeta.
  destruct (homeMotorReverse_with_pin StepperMotorPy.setSpeed s spd h Hh) as [A [B _]].
  destruct (homeMotorReverse_with_pin BlinkLed.setSpeed s spd h Hh) as [C [D _]].
  pose proof (homeMotorForward_with_pin s spd h Hh) as F.
  repeat split; assumption.
Qed.

Lemma homing_with_pin_witness :
  StepperMotorPy.homeMotorForward 60 sm_homing =
    Ret (mkSys (set_position (Some 0) (obj sm_homing))
           (Print MsgHomed :: Print (MsgHoming 4) :: io sm_homing)) tt.
Proof.
  exact (proj1 (proj2 (proj2 (proj2 (proj2
           (homing_with_pin sm_homing 60 4 eq_refl)))))).
Defined.

(** The outcome kind and final object of [moveSteps] and [step] depend on
    the object only, not on the earlier trace. *)
Lemma moveSteps_trace_indep (n : Z) (m : motor) (t t' : trace) :
  final_obj (StepperMotorPy.moveSteps n (mkSys m t)) =
  final_obj (StepperMotorPy.moveSteps n (mkSys m t')).
Proof.
  destruct m as [cp cs [p|] sp0 st dr ds hp dv mx di];
    unfold StepperMotorPy.moveSteps; run_py; reflexivity.
Qed.

Lemma step_trace_indep (n : Z) (m : motor) (t t' : trace) :
  final_obj (BlinkLed.step n (mkSys m t)) = final_obj (BlinkLed.step n (mkSys m t')).
Proof.
  destruct m as [cp cs [p|] sp0 st dr ds hp dv mx di];
    unfold BlinkLed.step; cbn;
    destruct (Z.gtb n 0); destruct (Z.ltb n 0); run_py; reflexivity.
Qed.

(** C9.  [reverseDirections] negates [direction], changes nothing else and
    emits no pin event (only a print); two calls give back the original
    object, so a following [moveSteps(N)] (or [step(N)]) ends in the same
    way with the same object, hence the same [position], as without the
    reversals. *)
Theorem reverseDirections_involutive (s : sys) (N : Z) :
  StepperMotorPy.reverseDirections s =
    Ret (mkSys (set_direction (- direction (obj s)) (obj s))
           (Print MsgDirectionReversed :: io s)) tt /\
  BlinkLed.reverseDirections s =
    Ret (mkSys (set_direction (- direction (obj s)) (obj s))
           (Print MsgDirectionReversed :: io s)) tt /\
  exists s2,
    (StepperMotorPy.reverseDirections ;; StepperMotorPy.reverseDirections) s = Ret s2 tt /\
    obj s2 = obj s /\
    io s2 = Print MsgDirectionReversed :: Print MsgDirectionReversed :: io s /\
    final_obj (StepperMotorPy.moveSteps N s2) = final_obj (StepperMotorPy.moveSteps N s) /\
    final_obj (BlinkLed.step N s2) = final_obj (BlinkLed.step N s).
Proof.
  destruct s as [m t].
  assert (Hm : set_direction (- direction (set_direction (- direction m) m))
                 (set_direction (- direction m) m) = m).
  { destruct m; cbn. rewrite Z.opp_involutive. reflexivity. }
  split; [reflexivity|]. split; [reflexivity|].
  eexists. split; [reflexivity|]. cbn [obj io]. rewrite Hm.
  split; [reflexivity|]. split; [reflexivity|].
  split; [apply moveSteps_trace_indep | apply step_trace_indep].
Qed.

(** The effect of [enableMotor] / [disableMotor] on a controller [s]:
    a normal return with the object unchanged, the disable pin last
    driven to [lvl], every other pin's level and configuration as before,
    the [enabled] view equal to [lvl = 0]; and a second call again returns
    normally with the object, every pin level and every pin configuration
    as after the first. *)
Definition sets_disable_level (op : M sys unit) (lvl : Z) (s : sys) : Prop :=
  exists t,
    op s = Ret (mkSys (obj s) t) tt /\
    pin_level t (disablePin (obj s)) = Some lvl /\
    enabled (mkSys (obj s) t) = Z.eqb lvl 0 /\
    (forall n, n <> disablePin (obj s) ->
       pin_level t n = pin_level (io s) n /\ pin_config t n = pin_config (io s) n) /\
    exists t',
      op (mkSys (obj s) t) = Ret (mkSys (obj s) t') tt /\
      forall n, pin_level t' n = pin_level t n /\ pin_config t' n = pin_config t n.

(** C10.  [enableMotor] drives the disable pin to [0] (enabled), and
    [disableMotor] drives it to [1] (disabled), in both files; both leave
    the object and every other pin alone and are idempotent. *)
Theorem enable_disable_spec (s : sys) :
  sets_disable_level StepperMotorPy.enableMotor 0 s /\
  sets_disable_level BlinkLed.enableMotor 0 s /\
  sets_disable_level StepperMotorPy.disableMotor 1 s /\
  sets_disable_level BlinkLed.disableMotor 1 s.
Proof.
  destruct s as [m t].
  repeat split; eexists; (split; [reflexivity|]); unfold enabled; cbn;
    rewrite ?Z.eqb_refl; (split; [reflexivity|]); (split; [reflexivity|]);
    (split;
     [ intros n Hn; rewrite (Zeqb_neq_false _ _ (not_eq_sym Hn)); split; reflexivity
     | eexists; split; [reflexivity|];
       intros n; cbn; destruct (Z.eqb (disablePin m) n); split; reflexivity ]).
Qed.

(** ** Further properties of the code *)

(** Up to [MAX_RPM = 600], the derived frequency does not exceed the
    derived maximum, for any positive divider (negative [rpm] included). *)
Lemma within_limit (d : Z) (rpm : Q) :
  0 < d -> (rpm <= 600)%Q ->
  Qltb (inject_Z (600 * (200 * d)) / 60) (rpm * inject_Z (200 * d) / 60) = false.
Proof.
  intros Hd Hr. unfold Qltb. apply negb_false_iff, Qle_bool_iff.
  destruct rpm as [a b]. unfold Qle in *.
  unfold Qdiv, Qmult, Qinv, inject_Z in *. cbn [Qnum Qden] in *.
  rewrite ?Pos2Z.inj_mul in *. nia.
Qed.

(** The constructors of both files print an error and terminate the
    process when the step, direction or disable pin is missing, before
    configuring any pin. *)
Theorem init_missing_pin_exits (hp sp dp ip cp : option Z) (t : trace)
  (Hmiss : sp = None \/ dp = None \/ ip = None) :
  StepperMotorPy.init hp sp dp ip t = Exit 1 (Print MsgPinsNotDeclared :: t) /\
  BlinkLed.init sp dp ip hp cp t = Exit 1 (Print MsgPinsNotDeclared :: t).
Proof.
  destruct Hmiss as [ H | [ H | H ] ]; rewrite H;
    destruct sp, dp, ip; try discriminate H; split; reflexivity.
Qed.

Lemma init_missing_pin_exits_witness :
  StepperMotorPy.init (Some 4) (Some 17) None (Some 7) [] =
    Exit 1 [Print MsgPinsNotDeclared].
Proof.
  exact (proj1 (init_missing_pin_exits (Some 4) (Some 17) None (Some 7) None []
                  (or_intror (or_introl eq_refl)))).
Defined.

(** [setSpeed] accepts every [rpm <= 600], whatever its sign (there is no
    lower bound: [-700] is accepted): it stores [speed] and [currentSpeed],
    starts PWM on the step pin at the derived frequency ([int] of it in
    [src/BlinkLed.py]) and drives the direction pin high exactly when
    [rpm * direction < 0]. *)
Theorem setSpeed_within_limit (s : sys) (rpm : Q)
  (Hdiv : 0 < stepDivider (obj s)) (Hmax : MAX_RPM (obj s) = 600)
  (Hrpm : (rpm <= 600)%Q) :
  let m := obj s in
  let spd := (rpm * inject_Z (200 * stepDivider m) / 60)%Q in
  let lvl := if Qltb (rpm * inject_Z (direction m)) 0 then 1 else 0 in
  let m' := set_currentSpeed (Some rpm) (set_speed (Some spd) m) in
  StepperMotorPy.setSpeed rpm s =
    Ret (mkSys m' (Print (MsgSpeedSet rpm spd) :: PinWrite (dirPin m) lvl
                   :: PinInit (dirPin m) OUT None :: PwmFreq (stepPin m) spd
                   :: PwmDuty (stepPin m) 512 :: PwmInit (stepPin m) :: io s)) tt /\
  BlinkLed.setSpeed rpm s =
    Ret (mkSys m' (Print (MsgSpeedSet rpm spd) :: PinWrite (dirPin m) lvl
                   :: PwmFreq (stepPin m) (inject_Z (py_int spd))
                   :: PwmDutyU16 (stepPin m) 32768 :: PwmInit (stepPin m) :: io s)) tt /\
  pin_level (PinWrite (dirPin m) lvl :: io s) (dirPin m) = Some lvl.
Proof.
  destruct s as [m t]; cbn [obj io] in *.
  unfold StepperMotorPy.setSpeed, BlinkLed.setSpeed.
  rewrite !bind_eq. cbn [self update obj io].
  rewrite !bind_eq. cbn [update obj io].
  rewrite Hmax, (within_limit _ _ Hdiv Hrpm).
  destruct (Qltb (rpm * inject_Z (direction m)) 0); cbn;
    rewrite Z.eqb_refl; repeat split.
Qed.

Lemma setSpeed_within_limit_witness :
  exists st, StepperMotorPy.setSpeed (-700) sm_homing = Ret st tt /\
             currentSpeed (obj st) = Some (-700)%Q.
Proof.
  pose proof (setSpeed_within_limit sm_homing (-700)
                ltac:(vm_compute; reflexivity) ltac:(vm_compute; reflexivity)
                ltac:(vm_compute; discriminate)) as H.
  cbv zeta in H. exact (ex_intro _ _ (conj (proj1 H) eq_refl)).
Defined.

(** Number of step pulses (writes of [1]) on a pin in a trace. *)
Fixpoint pulse_count (t : trace) (pin : Z) : nat :=
  match t with
  | [] => O
  | PinWrite p v :: t' =>
      if Z.eqb p pin && Z.eqb v 1 then S (pulse_count t' pin) else pulse_count t' pin
  | _ :: t' => pulse_count t' pin
  end.

(** The trace an outcome leaves. *)
Definition final_io {A} (o : outcome sys A) : trace :=
  match o with
  | Ret s _ | Raise _ s | Exit _ s => io s
  end.

Lemma pulse_count_app (a b : trace) (pin : Z) :
  pulse_count (a ++ b) pin = (pulse_count a pin + pulse_count b pin)%nat.
Proof.
  induction a as [|e a IH]; [reflexivity|].
  destruct e; cbn; rewrite ?IH; try reflexivity.
  destruct (Z.eqb pin0 pin && Z.eqb v 1); reflexivity.
Qed.

Lemma pulse_count_out (n : nat) (pin : Z) :
  pulse_count (out_pulse_trace n pin) pin = n.
Proof.
  induction n as [|n IH]; [reflexivity|].
  cbn [out_pulse_trace]. rewrite pulse_count_app, IH. cbn.
  rewrite Z.eqb_refl. cbn. lia.
Qed.

Lemma pulse_count_obj (n : nat) (pin : Z) :
  pulse_count (obj_pulse_trace n pin) pin = n.
Proof.
  induction n as [|n IH]; [reflexivity|].
  cbn [obj_pulse_trace]. rewrite pulse_count_app, IH. cbn.
  rewrite Z.eqb_refl. cbn. lia.
Qed.

Lemma pin_level_out_other (n : nat) (pin q : Z) (t : trace) :
  pin <> q -> pin_level (out_pulse_trace n pin ++ t) q = pin_level t q.
Proof.
  intros Hne. revert t. induction n as [|n IH]; intros t; [reflexivity|].
  cbn [out_pulse_trace]. rewrite <- app_assoc, IH. cbn.
  rewrite (Zeqb_neq_false _ _ Hne). reflexivity.
Qed.

Lemma pin_config_out_other (n : nat) (pin q : Z) (t : trace) :
  pin <> q -> pin_config (out_pulse_trace n pin ++ t) q = pin_config t q.
Proof.
  intros Hne. revert t. induction n as [|n IH]; intros t; [reflexivity|].
  cbn [out_pulse_trace]. rewrite <- app_assoc, IH. cbn.
  rewrite (Zeqb_neq_false _ _ Hne). reflexivity.
Qed.

Lemma pin_level_obj_other (n : nat) (pin q : Z) (t : trace) :
  pin <> q -> pin_level (obj_pulse_trace n pin ++ t) q = pin_level t q.
Proof.
  intros Hne. revert t. induction n as [|n IH]; intros t; [reflexivity|].
  cbn [obj_pulse_trace]. rewrite <- app_assoc, IH. cbn.
  rewrite (Zeqb_neq_false _ _ Hne). reflexivity.
Qed.

Lemma pin_level_obj_last (n : nat) (pin : Z) (t : trace) :
  (0 < n)%nat -> pin_level (obj_pulse_trace n pin ++ t) pin = Some 0.
Proof.
  destruct n as [|n]; [lia|]. intros _. revert t.
  induction n as [|n IH]; intros t.
  - cbn. rewrite Z.eqb_refl. reflexivity.
  - change (obj_pulse_trace (S (S n)) pin)
      with (obj_pulse_trace (S n) pin ++ [PinWrite pin 0; PinWrite pin 1]).
    rewrite <- app_assoc. apply IH.
Qed.

Lemma pin_level_out_last (n : nat) (pin : Z) (t : trace) :
  (0 < n)%nat -> pin_level (out_pulse_trace n pin ++ t) pin = Some 0.
Proof.
  destruct n as [|n]; [lia|]. intros _. revert t.
  induction n as [|n IH]; intros t.
  - cbn. rewrite Z.eqb_refl. reflexivity.
  - change (out_pulse_trace (S (S n)) pin)
      with (out_pulse_trace (S n) pin ++
              [PinWrite pin 0; PinInit pin OUT None; PinWrite pin 1; PinInit pin OUT None]).
    rewrite <- app_assoc. apply IH.
Qed.

(** [moveSteps(steps)] of [src/StepperMotor.py] emits exactly [abs(steps)]
    pulses on the step pin (leaving it low), and configures or writes no
    other pin: in particular it never sets the direction pin, whether it
    returns or raises on an unset [position]. *)
Theorem moveSteps_pulses_only (s : sys) (steps : Z) :
  let t := final_io (StepperMotorPy.moveSteps steps s) in
  let sp := stepPin (obj s) in
  pulse_count t sp = (Z.to_nat (Z.abs steps) + pulse_count (io s) sp)%nat /\
  (steps <> 0 -> pin_level t sp = Some 0) /\
  (forall q, q <> sp -> pin_level t q = pin_level (io s) q /\
                       pin_config t q = pin_config (io s) q).
Proof.
  destruct s as [[cp cs [p|] sp0 st dr ds hp dv mx di] t]; cbn [obj io stepPin];
    unfold StepperMotorPy.moveSteps; run_py;
    rewrite ?pulse_count_app, ?pulse_count_out;
    (split; [reflexivity|]);
    (split;
     [ intros Hs; rewrite ?pin_level_out_last by lia; reflexivity
     | intros q Hq; rewrite ?pin_level_out_other, ?pin_config_out_other by congruence;
       split; reflexivity ]).
Qed.

(** [moveSteps] of [src/StepperMotor.py] ignores the sign of [steps]:
    [moveSteps(-n)] ends like [moveSteps(n)], with the same object and the
    same pin events (only the printed message differs). *)
Theorem moveSteps_ignores_sign (s : sys) (n : Z) :
  final_obj (StepperMotorPy.moveSteps (- n) s) = final_obj (StepperMotorPy.moveSteps n s) /\
  filter touches_pin (final_io (StepperMotorPy.moveSteps (- n) s)) =
  filter touches_pin (final_io (StepperMotorPy.moveSteps n s)).
Proof.
  destruct s as [[cp cs [p|] sp0 st dr ds hp dv mx di] t];
    unfold StepperMotorPy.moveSteps; rewrite Z.abs_opp; run_py; split; reflexivity.
Qed.

Lemma Zgtb_pos (n : Z) : 0 < n -> Z.gtb n 0 = true.
Proof. intros H. apply Z.gtb_lt. exact H. Qed.

Lemma Zgtb_neg (n : Z) : n < 0 -> Z.gtb n 0 = false.
Proof. intros H. rewrite Z.gtb_ltb. apply Z.ltb_ge. lia. Qed.

Lemma Zltb_pos (n : Z) : 0 < n -> Z.ltb n 0 = false.
Proof. intros H. apply Z.ltb_ge. lia. Qed.

Lemma Zltb_neg (n : Z) : n < 0 -> Z.ltb n 0 = true.
Proof. intros H. apply Z.ltb_lt. exact H. Qed.

(** [step(steps)] of [src/BlinkLed.py], with [position] set and
    [direction] one of [1] and [-1], returns normally after
    [abs(steps)] pulses on the step pin and [position += steps * direction];
    the direction pin ends high for both signs of [steps], since it is
    written [direction] or [-direction], both non-zero. *)
Theorem step_dir_pin_high (s : sys) (steps p : Z)
  (Hpos : position (obj s) = Some p)
  (Hdir : direction (obj s) = 1 \/ direction (obj s) = -1)
  (Hpins : stepPin (obj s) <> dirPin (obj s)) (Hs : steps <> 0) :
  exists t,
    BlinkLed.step steps s =
      Ret (mkSys (set_position (Some (p + steps * direction (obj s))) (obj s)) t) tt /\
    pulse_count t (stepPin (obj s)) =
      (Z.to_nat (Z.abs steps) + pulse_count (io s) (stepPin (obj s)))%nat /\
    pin_level t (dirPin (obj s)) = Some 1.
Proof.
  destruct s as [[cp cs po sp0 st dr ds hp dv mx di] t];
    cbn [obj io position direction stepPin dirPin] in *; subst po.
  unfold BlinkLed.step. cbn.
  assert (Hdi : Z.eqb di 0 = false /\ Z.eqb (- di) 0 = false)
    by (split; apply Z.eqb_neq; lia).
  destruct (proj1 (Z.lt_gt_cases steps 0) Hs) as [Hn|Hn].
  - rewrite (Zgtb_neg _ Hn), (Zltb_neg _ Hn). run_py.
    eexists. split; [reflexivity|].
    cbn [io pulse_count pin_level]. rewrite pulse_count_app, pulse_count_obj. cbn.
    rewrite (Zeqb_neq_false dr st) by congruence. cbn. split; [lia|].
    rewrite pin_level_obj_other by congruence. cbn.
    rewrite Z.eqb_refl. destruct Hdi as [_ ->]. reflexivity.
  - rewrite (Zgtb_pos _ Hn), (Zltb_pos _ Hn). run_py.
    eexists. split; [reflexivity|].
    cbn [io pulse_count pin_level]. rewrite pulse_count_app, pulse_count_out. cbn.
    rewrite (Zeqb_neq_false dr st) by congruence. cbn. split; [lia|].
    rewrite pin_level_out_other by congruence. cbn.
    rewrite Z.eqb_refl. destruct Hdi as [-> _]. reflexivity.
Qed.

(** A [src/BlinkLed.py] controller homed by [homeMotorForward]. *)
Definition bl_homed : sys :=
  match BlinkLed.homeMotorForward 60 bl_homing with
  | Ret s _ => s
  | _ => bl_homing
  end.

Lemma step_dir_pin_high_witness :
  exists t,
    BlinkLed.step (-3) bl_homed =
      Ret (mkSys (set_position (Some (-3)) (obj bl_homed)) t) tt /\
    pin_level t 16 = Some 1.
Proof.
  destruct (step_dir_pin_high bl_homed (-3) 0 eq_refl (or_introl eq_refl)
              ltac:(vm_compute; discriminate) ltac:(lia)) as [t [H1 [_ H3]]].
  exists t. split; [exact H1 | exact H3].
Defined.

(** In [src/BlinkLed.py], once [position] is set, [step(n)] followed by
    [step(-n)] returns normally with the object exactly as before, the
    same [position] included. *)
Theorem step_round_trip (s : sys) (n p : Z) (Hpos : position (obj s) = Some p) :
  exists s', (BlinkLed.step n ;; BlinkLed.step (- n)) s = Ret s' tt /\ obj s' = obj s.
Proof.
  destruct (BlinkLed_step_updates_position s n p Hpos) as [t1 H1].
  set (s1 := mkSys (set_position (Some (p + n * direction (obj s))) (obj s)) t1).
  destruct (BlinkLed_step_updates_position s1 (- n) (p + n * direction (obj s)) eq_refl)
    as [t2 H2].
  eexists. split.
  - rewrite bind_eq, H1. fold s1. exact H2.
  - destruct s as [[cp cs po sp0 st dr ds hp dv mx di] t]; cbn in Hpos |- *.
    subst po. unfold set_position. cbn. replace (p + n * di + - n * di) with p by ring. reflexivity.
Qed.

Lemma step_round_trip_witness :
  exists s', (BlinkLed.step 7 ;; BlinkLed.step (- 7)) bl_homed = Ret s' tt /\
             obj s' = obj bl_homed.
Proof. exact (step_round_trip bl_homed 7 0 eq_refl). Defined.

(** [setSpeed] within the limit, in the shape used for homing. *)
Lemma setSpeed_ok (s : sys) (rpm : Q)
  (Hdiv : 0 < stepDivider (obj s)) (Hmax : MAX_RPM (obj s) = 600)
  (Hrpm : (rpm <= 600)%Q) :
  let m' := set_currentSpeed (Some rpm)
              (set_speed (Some (rpm * inject_Z (200 * stepDivider (obj s)) / 60)%Q) (obj s)) in
  (exists t, StepperMotorPy.setSpeed rpm s = Ret (mkSys m' t) tt) /\
  (exists t, BlinkLed.setSpeed rpm s = Ret (mkSys m' t) tt).
Proof.
  destruct s as [m t]; cbn [obj io] in *.
  unfold StepperMotorPy.setSpeed, BlinkLed.setSpeed.
  rewrite !bind_eq. cbn [self update obj io].
  rewrite !bind_eq. cbn [update obj io].
  rewrite Hmax, (within_limit _ _ Hdiv Hrpm).
  destruct (Qltb (rpm * inject_Z (direction m)) 0); split; eexists; reflexivity.
Qed.

(** With a homing pin, a positive divider and [MAX_RPM = 600],
    [homeMotorReverse(speed)] for any [speed <= 600] (the default [-60]
    included) returns normally, having set [position = 0],
    [currentSpeed = speed] and [speed] to the derived frequency, in both
    files. *)
Theorem homeMotorReverse_completes (s : sys) (spd : Q) (h : Z)
  (Hh : homingPin (obj s) = Some h) (Hdiv : 0 < stepDivider (obj s))
  (Hmax : MAX_RPM (obj s) = 600) (Hspd : (spd <= 600)%Q) :
  let m' := set_position (Some 0)
              (set_currentSpeed (Some spd)
                 (set_speed (Some (spd * inject_Z (200 * stepDivider (obj s)) / 60)%Q)
                    (obj s))) in
  (exists t, StepperMotorPy.homeMotorReverse spd s = Ret (mkSys m' t) tt) /\
  (exists t, BlinkLed.homeMotorReverse spd s = Ret (mkSys m' t) tt).
Proof.
  set (s1 := mkSys (obj s) (Print (MsgHoming h) :: io s)).
  destruct (setSpeed_ok s1 spd Hdiv Hmax Hspd) as [[t1 E1] [t2 E2]].
  destruct (homeMotorReverse_with_pin StepperMotorPy.setSpeed s spd h Hh) as [A _].
  destruct (homeMotorReverse_with_pin BlinkLed.setSpeed s spd h Hh) as [B _].
  cbv zeta in A, B |- *. fold s1 in A, B.
  split; eexists; [exact (A _ E1) | exact (B _ E2)].
Qed.

Lemma homeMotorReverse_completes_witness :
  exists t, StepperMotorPy.homeMotorReverse (-60) sm_homing =
              Ret (mkSys (set_position (Some 0)
                            (set_currentSpeed (Some (-60)%Q)
                               (set_speed (Some (-60 * inject_Z (200 * 1) / 60)%Q)
                                  (obj sm_homing)))) t) tt.
Proof.
  exact (proj1 (homeMotorReverse_completes sm_homing (-60) 4 eq_refl
                  ltac:(vm_compute; reflexivity) eq_refl
                  ltac:(vm_compute; discriminate))).
Defined.

(** ** Client programs: sequences of method calls *)

(** One call of a public method of the class, with its arguments. *)
Inductive command : Type :=
| CEnable
| CDisable
| CReverse
| CSetMicroStep (d : Z)
| CMove (steps : Z)
| CSetSpeed (rpm : Q)
| CHomeReverse (spd : Q)
| CHomeForward (spd : Q).

Definition sm_call (c : command) : M sys unit :=
  match c with
  | CEnable => StepperMotorPy.enableMotor
  | CDisable => StepperMotorPy.disableMotor
  | CReverse => StepperMotorPy.reverseDirections
  | CSetMicroStep d => StepperMotorPy.setMicroStep d
  | CMove n => StepperMotorPy.moveSteps n
  | CSetSpeed r => StepperMotorPy.setSpeed r
  | CHomeReverse v => StepperMotorPy.homeMotorReverse v
  | CHomeForward v => StepperMotorPy.homeMotorForward v
  end.

Definition bl_call (c : command) : M sys unit :=
  match c with
  | CEnable => BlinkLed.enableMotor
  | CDisable => BlinkLed.disableMotor
  | CReverse => BlinkLed.reverseDirections
  | CSetMicroStep d => BlinkLed.setMicroStep d
  | CMove n => BlinkLed.step n
  | CSetSpeed r => BlinkLed.setSpeed r
  | CHomeReverse v => BlinkLed.homeMotorReverse v
  | CHomeForward v => BlinkLed.homeMotorForward v
  end.

(** A client calling the methods one after the other; an exception or an
    exit stops the sequence. *)
Fixpoint run (call : command -> M sys unit) (cs : list command) : M sys unit :=
  match cs with
  | [] => ret tt
  | c :: cs' => call c ;; run call cs'
  end.

(** What every method keeps of a constructed object [m0]: a valid divider,
    a direction of [1] or [-1], [MAX_RPM = 600] and the pins. *)
Definition motor_inv (m0 m : motor) : Prop :=
  valid_microstep (stepDivider m) = true /\
  (direction m = 1 \/ direction m = -1) /\
  MAX_RPM m = 600 /\
  stepPin m = stepPin m0 /\ dirPin m = dirPin m0 /\
  disablePin m = disablePin m0 /\ homingPin m = homingPin m0.

Section Run.
Variable call : command -> M sys unit.
Variable I : motor -> Prop.
Hypothesis call_keeps :
  forall c s, I (obj s) -> I (snd (final_obj (call c s))).

Lemma run_keeps (cs : list command) (s : sys) :
  I (obj s) -> I (snd (final_obj (run call cs s))).
Proof.
  revert s; induction cs as [|c cs IH]; intros s Hs; [exact Hs|].
  cbn [run]. rewrite bind_eq.
  pose proof (call_keeps c s Hs) as Hc.
  destruct (call c s) as [s' []|e s'|n s']; cbn in Hc |- *; auto.
Qed.
End Run.

Ltac run_py_opaque :=
  repeat first
    [ progress rewrite ?pulses_out_eq, ?pulses_obj_eq
    | progress cbn -[Common.pulses_out Common.pulses_obj Qltb valid_microstep
                     Z.gtb Z.ltb Z.mul]
    | progress rewrite ?bind_eq ].

Ltac split_matches :=
  repeat (run_py_opaque;
          match goal with
          | |- context [match ?x with _ => _ end] =>
              lazymatch x with
              | context [match _ with _ => _ end] => fail
              | _ =>
                  lazymatch type of x with
                  | bool => destruct x eqn:?
                  | option _ => destruct x eqn:?
                  end
              end
          end);
  run_py_opaque.

Ltac close_inv :=
  repeat match goal with
         | H : negb _ = false |- _ => apply negb_false_iff in H
         end;
  unfold motor_inv in *; cbn in *; intuition (try lia).

Lemma sm_call_keeps (m0 : motor) (c : command) (s : sys) :
  motor_inv m0 (obj s) -> motor_inv m0 (snd (final_obj (sm_call c s))).
Proof.
  destruct s as [[cp cs po sp0 st dr ds hp dv mx di] t]; intros Hinv.
  destruct c; cbn [sm_call];
    unfold StepperMotorPy.enableMotor, StepperMotorPy.disableMotor,
      StepperMotorPy.reverseDirections, StepperMotorPy.setMicroStep,
      StepperMotorPy.moveSteps, StepperMotorPy.setSpeed,
      StepperMotorPy.homeMotorReverse, StepperMotorPy.homeMotorForward,
      Common.disableMotor, Common.reverseDirections, Common.setMicroStep,
      Common.homeMotorReverse, Common.homeMotorForward, get_position;
    split_matches; close_inv.
Qed.

Lemma bl_call_keeps (m0 : motor) (c : command) (s : sys) :
  motor_inv m0 (obj s) -> motor_inv m0 (snd (final_obj (bl_call c s))).
Proof.
  destruct s as [[cp cs po sp0 st dr ds hp dv mx di] t]; intros Hinv.
  destruct c; cbn [bl_call];
    unfold BlinkLed.enableMotor, BlinkLed.disableMotor,
      BlinkLed.reverseDirections, BlinkLed.setMicroStep,
      BlinkLed.step, BlinkLed.setSpeed,
      BlinkLed.homeMotorReverse, BlinkLed.homeMotorForward,
      Common.disableMotor, Common.reverseDirections, Common.setMicroStep,
      Common.homeMotorReverse, Common.homeMotorForward, get_position;
    split_matches; close_inv.
Qed.

Lemma motor_inv_sm_init (hp sp dp ip : option Z) (t t' : trace) (m : motor) :
  StepperMotorPy.init hp sp dp ip t = Ret t' m -> motor_inv m m.
Proof.
  intros H. destruct sp, dp, ip; try discriminate H.
  destruct hp; cbn in H; injection H as _ <-; unfold motor_inv; cbn; intuition.
Qed.

Lemma motor_inv_bl_init (sp dp ip hp cp : option Z) (t t' : trace) (m : motor) :
  BlinkLed.init sp dp ip hp cp t = Ret t' m -> motor_inv m m.
Proof.
  intros H. destruct sp, dp, ip; try discriminate H.
  destruct hp; cbn in H; injection H as _ <-; unfold motor_inv; cbn; intuition.
Qed.

(** For a controller built by the constructor of [src/StepperMotor.py],
    after any sequence of method calls, however it ends (normal return,
    exception or exit), the divider is one of [1, 2, 4, 8, 16], the
    direction is [1] or [-1], [MAX_RPM = 600], and the step, direction,
    disable and homing pins are those given at construction. *)
Theorem sm_run_invariant (hp sp dp ip : option Z) (t t' : trace) (m : motor)
  (Hinit : StepperMotorPy.init hp sp dp ip t = Ret t' m) (cs : list command) :
  motor_inv m (snd (final_obj (run sm_call cs (mkSys m t')))).
Proof.
  apply (run_keeps sm_call (motor_inv m) (sm_call_keeps m)).
  exact (motor_inv_sm_init _ _ _ _ _ _ _ Hinit).
Qed.

Lemma sm_run_invariant_witness :
  motor_inv (obj sm_homing)
    (snd (final_obj (run sm_call [CEnable; CSetMicroStep 8; CReverse; CSetSpeed 300;
                                  CHomeReverse (-60); CMove 5] sm_homing))).
Proof.
  exact (sm_run_invariant (Some 4) (Some 17) (Some 16) (Some 7) [] (io sm_homing)
           (obj sm_homing) eq_refl _).
Defined.

(** The same invariant for the class of [src/BlinkLed.py]. *)
Theorem bl_run_invariant (sp dp ip hp cp : option Z) (t t' : trace) (m : motor)
  (Hinit : BlinkLed.init sp dp ip hp cp t = Ret t' m) (cs : list command) :
  motor_inv m (snd (final_obj (run bl_call cs (mkSys m t')))).
Proof.
  apply (run_keeps bl_call (motor_inv m) (bl_call_keeps m)).
  exact (motor_inv_bl_init _ _ _ _ _ _ _ _ Hinit).
Qed.

Lemma bl_run_invariant_witness :
  motor_inv (obj bl_homing)
    (snd (final_obj (run bl_call [CEnable; CSetMicroStep 4; CReverse; CSetSpeed (-200);
                                  CHomeForward 60; CMove (-3)] bl_homing))).
Proof.
  exact (bl_run_invariant (Some 17) (Some 16) (Some 7) (Some 4) None [] (io bl_homing)
           (obj bl_homing) eq_refl _).
Defined.

(** The last frequency set by [pwm.freq] on a pin. *)
Fixpoint pwm_freq (t : trace) (n : Z) : option Q :=
  match t with
  | [] => None
  | PwmFreq p f :: t' => if Z.eqb p n then Some f else pwm_freq t' n
  | _ :: t' => pwm_freq t' n
  end.

(** The module-level script of [src/BlinkLed.py]:
    [motor = StepperMotor(stepPin = 17, dirPin = 16, disablePin = 7,
    homingPin = 4)], then [enableMotor()], [setMicroStep(8)],
    [setSpeed(300)]; [None] when the constructor does not return. *)
Definition BlinkLed_script (t : trace) : option (outcome sys unit) :=
  match BlinkLed.init (Some 17) (Some 16) (Some 7) (Some 4) None t with
  | Ret t' m =>
      Some ((BlinkLed.enableMotor ;; BlinkLed.setMicroStep 8 ;;
             BlinkLed.setSpeed 300) (mkSys m t'))
  | _ => None
  end.

(** Whatever happened on the board before, the script of
    [src/BlinkLed.py] runs to completion: the driver is enabled (disable
    pin low), the divider is [8], [currentSpeed = 300], the stored [speed]
    is [8000] steps per second, PWM runs on pin 17 at [8000] Hz, and the
    direction pin is low. *)
Theorem BlinkLed_script_runs (t : trace) :
  exists s,
    BlinkLed_script t = Some (Ret s tt) /\
    stepDivider (obj s) = 8 /\ currentSpeed (obj s) = Some 300%Q /\
    (exists q, speed (obj s) = Some q /\ (q == 8000)%Q) /\
    pwm_freq (io s) 17 = Some 8000%Q /\
    pin_level (io s) 7 = Some 0 /\ enabled s = true /\
    pin_level (io s) 16 = Some 0.
Proof.
  unfold BlinkLed_script. cbn.
  eexists. split; [reflexivity|].
  cbn. repeat split.
  eexists. split; [reflexivity|]. reflexivity.
Qed.
